(** * SCGE: structural decay of a leveraged ETF

    A shallow embedding of [nvdd.py] (class [StructuralDecayMonitor]) and of
    [price_distribution.py] (function [simulate_log_return_paths]), followed
    by the properties of the two that the specification states.

    Numbers.  The program computes on numpy [float64] values.  The code is
    embedded once, over an interface [Arith] that lists the float operations
    the source uses, and the interface has two instances:
    - [binary64]: IEEE 754 double precision (the kernel's primitive floats),
      which is what the program runs on: NaN, infinities, rounding;
    - [exact]: the rationals, that is the same formulas without rounding.
    A theorem stated for every instance holds of the program as it runs.

    Scope.  Python ints are unbounded integers; the limits of the machine
    (memory, the range of array indices) are not modelled.  numpy's random
    generator is outside the repository and enters as a parameter.
    [run_diagnosis] is embedded with its printed lines as a result; the
    formatting of a number is Python's and enters as a parameter. *)

From Stdlib Require Import ZArith List String Bool Lia.
From Stdlib Require Import Floats QArith Qabs Lqa Permutation.
Import ListNotations.

Set Implicit Arguments.
Local Open Scope Z_scope.

(** ** The float operations used by the source *)

Class Arith (F : Type) : Type := {
  f_zero : F;                    (* 0.0 *)
  f_two : F;                     (* 2, as in [k**2 / 2] *)
  f_eps : F;                     (* the literal 1e-8 *)
  f_add : F -> F -> F;
  f_mul : F -> F -> F;
  f_div : F -> F -> F;
  f_abs : F -> F;
  f_of_int : Z -> F              (* a Python int converted to float *)
}.

(** IEEE 754 binary64, round to nearest even. *)
#[export] Instance binary64 : Arith float := {
  f_zero := 0%float;
  f_two := 2%float;
  f_eps := 0x1.5798ee2308c3ap-27%float;   (* the double nearest to 1e-8 *)
  f_add := PrimFloat.add;
  f_mul := PrimFloat.mul;
  f_div := PrimFloat.div;
  f_abs := PrimFloat.abs;
  f_of_int := fun n => SF2Prim (binary_normalize prec emax n 0 false)
}.

(** The same operations on rationals: no rounding, no NaN, no infinity. *)
#[export] Instance exact : Arith Q := {
  f_zero := 0%Q;
  f_two := 2%Q;
  f_eps := (1 # 100000000)%Q;
  f_add := Qplus;
  f_mul := Qmult;
  f_div := Qdiv;
  f_abs := Qabs;
  f_of_int := inject_Z
}.

(** ** Python and numpy primitives *)

Inductive exception : Type :=
| RuntimeError (msg : string)
| ValueError (msg : string).

(** [len(l)], a Python int. *)
Definition len {A : Type} (l : list A) : Z := Z.of_nat (List.length l).

(** [l[start:]] with Python's treatment of the bound: a negative [start]
    counts from the end, and both cases are clipped to [0 .. len(l)]. *)
Definition slice_from {A : Type} (start : Z) (l : list A) : list A :=
  let lo := if start <? 0 then Z.max 0 (len l + start) else Z.min start (len l) in
  skipn (Z.to_nat lo) l.

Section Numpy.
Context {F : Type} {A : Arith F}.

(** [x ** 2] on a float. *)
Definition f_sq (x : F) : F := f_mul x x.

(** [a.sum()].  numpy fixes the sum up to the order of the additions; the
    order here is the sequential one, from [0.0], which the specification
    names as the reference. *)
Definition np_sum (a : list F) : F := fold_left f_add a f_zero.

(** [a ** 2] on an array: elementwise. *)
Definition np_square (a : list F) : list F := map f_sq a.

(** [np.mean(a)]: the sum divided by the number of elements.  On an empty
    list numpy evaluates [0.0 / 0] (and warns); it does not raise. *)
Definition np_mean (a : list F) : F := f_div (np_sum a) (f_of_int (len a)).
End Numpy.

(** ** nvdd.py *)

Section Nvdd.
Context {F : Type} {A : Arith F}.

Record VolatilityDragConfig : Type := {
  ticker : string;
  leverage_k : F;
  lookback_window : Z;
  risk_free_rate : F
}.

(** The dataclass defaults: [leverage_k = 1.0], [lookback_window = 10],
    [risk_free_rate = 0.0]. *)
Definition default_config (t : string) : VolatilityDragConfig :=
  {| ticker := t; leverage_k := f_of_int 1; lookback_window := 10;
     risk_free_rate := f_zero |}.

(** An instance of the class.  [sim_paths] is an attribute that [__init__]
    does not create: [None] is its absence, which [hasattr] tests. *)
Record StructuralDecayMonitor : Type := {
  config : VolatilityDragConfig;
  data : option (list (list F));
  sim_paths : option (list (list F))
}.

Definition init (c : VolatilityDragConfig) : StructuralDecayMonitor :=
  {| config := c; data := None; sim_paths := None |}.

Definition load_simulated_returns (self : StructuralDecayMonitor)
    (simulated_log_returns : list (list F)) : StructuralDecayMonitor :=
  {| config := config self; data := data self;
     sim_paths := Some simulated_log_returns |}.

(** The three lists the loop appends to. *)
Record accumulators : Type := {
  trends : list F;
  drags : list F;
  effs : list F
}.

Definition no_metrics : accumulators :=
  {| trends := []; drags := []; effs := [] |}.

(** The metrics of one row that passed the length test. *)
Record per_path : Type := { trend : F; drag : F; eff : F }.

Definition path_metrics (k : F) (w : Z) (path : list F) : per_path :=
  let window := slice_from (- w) path in
  let trend := f_abs (np_sum window) in
  let var_sum := np_sum (np_square window) in
  let drag := f_mul (f_div (f_sq k) f_two) var_sum in
  let eff := f_div trend (f_add drag f_eps) in
  {| trend := trend; drag := drag; eff := eff |}.

(** One iteration of [for path in self.sim_paths]. *)
Definition loop_body (k : F) (w : Z) (acc : accumulators) (path : list F)
    : accumulators :=
  if len path <? w then acc     (* continue *)
  else
    let m := path_metrics k w path in
    {| trends := trends acc ++ [trend m];
       drags := drags acc ++ [drag m];
       effs := effs acc ++ [eff m] |}.

Record metrics : Type := {
  avg_trend : F;
  avg_drag : F;
  avg_efficiency : F
}.

Definition no_paths_loaded : exception :=
  RuntimeError "No simulated paths loaded.".

Definition compute_structural_greeks (self : StructuralDecayMonitor)
    : exception + metrics :=
  match sim_paths self with
  | None => inl no_paths_loaded
  | Some paths =>
      let k := leverage_k (config self) in
      let w := lookback_window (config self) in
      let acc := fold_left (loop_body k w) paths no_metrics in
      inr {| avg_trend := np_mean (trends acc);
             avg_drag := np_mean (drags acc);
             avg_efficiency := np_mean (effs acc) |}
  end.
End Nvdd.

Arguments VolatilityDragConfig F : clear implicits.
Arguments StructuralDecayMonitor F : clear implicits.
Arguments accumulators F : clear implicits.
Arguments per_path F : clear implicits.
Arguments metrics F : clear implicits.

(** ** price_distribution.py *)

(** [np.sqrt] is used by the simulation only. *)
Class Sqrt (F : Type) : Type := { f_sqrt : F -> F }.

#[export] Instance binary64_sqrt : Sqrt float := { f_sqrt := PrimFloat.sqrt }.

Section PriceDistribution.
Context {F : Type} {A : Arith F} {R : Sqrt F}.

(** numpy's random generator, which is not part of the repository: the
    type of generator states, [np.random.default_rng(seed)] for a seed the
    library accepts, and one draw from the standard normal distribution,
    which returns the sample and the generator's next state. *)
Variable Generator : Type.
Variable default_rng : Z -> Generator.
Variable standard_normal : Generator -> F * Generator.

(** Whatever process-wide random state exists outside the function (the
    legacy global [np.random] state, Python's [random] module). *)
Variable GlobalState : Type.

(** One row of [d] samples, each [loc + scale * z]. *)
Fixpoint draw_row (loc scale : F) (d : nat) (g : Generator)
    : list F * Generator :=
  match d with
  | O => ([], g)
  | S d' =>
      let (z, g1) := standard_normal g in
      let (row, g2) := draw_row loc scale d' g1 in
      (f_add loc (f_mul scale z) :: row, g2)
  end.

(** [n] rows, filled in row-major order. *)
Fixpoint draw_rows (loc scale : F) (n d : nat) (g : Generator)
    : list (list F) * Generator :=
  match n with
  | O => ([], g)
  | S n' =>
      let (row, g1) := draw_row loc scale d g in
      let (rows, g2) := draw_rows loc scale n' d g1 in
      (row :: rows, g2)
  end.

(** [rng.normal(loc, scale, size=(n, d))].  numpy refuses a negative
    dimension with a [ValueError]; a dimension of zero is accepted.  The
    scale reaches the samples by multiplication, so a NaN scale gives NaN
    samples. *)
Definition normal (g : Generator) (loc scale : F) (size : Z * Z)
    : exception + (list (list F) * Generator) :=
  let (n, d) := size in
  if (n <? 0) || (d <? 0)
  then inl (ValueError "negative dimensions are not allowed")
  else inr (draw_rows loc scale (Z.to_nat n) (Z.to_nat d) g).

(** The function takes the global state and hands it back: the body
    neither reads nor writes it.  [T] is computed and never used, as in the
    source; the generator's final state is dropped with the local [rng]. *)
Definition simulate_log_return_paths (spot forward_variance : F)
    (days_to_expiry n_paths seed : Z) (st : GlobalState)
    : (exception + list (list F)) * GlobalState :=
  let rng := default_rng seed in
  let T := f_div (f_of_int days_to_expiry) (f_of_int 252) in
  let sigma_annual := f_sqrt forward_variance in
  let sigma_daily := f_div sigma_annual (f_sqrt (f_of_int 252)) in
  match normal rng f_zero sigma_daily (n_paths, days_to_expiry) with
  | inl e => (inl e, st)
  | inr (log_rets, _) => (inr log_rets, st)
  end.
End PriceDistribution.

(** A stand-in generator for running the simulation on concrete inputs:
    the state is a counter and the [i]-th draw is [i] as a float.  It has
    the interface of numpy's generator and none of its statistics. *)
Definition counter_rng (seed : Z) : Z := seed.
Definition counter_draw (g : Z) : float * Z := (f_of_int g, g + 1).

(** ** Notions used to state the properties *)

(** The last [n] entries of a list, as the specification words it. *)
Definition last_entries {A : Type} (n : nat) (l : list A) : list A :=
  rev (firstn n (rev l)).

(** The rows the loop keeps: those for which [len(path) < w] is false. *)
Definition included {A : Type} (w : Z) (path : list A) : bool := w <=? len path.

Definition included_paths {A : Type} (w : Z) (paths : list (list A))
    : list (list A) :=
  filter (included w) paths.

(** The same arithmetic with another constant in place of [1e-8]. *)
Definition with_eps {F : Type} (A : Arith F) (e : F) : Arith F :=
  {| f_zero := f_zero; f_two := f_two; f_eps := e;
     f_add := f_add; f_mul := f_mul; f_div := f_div; f_abs := f_abs;
     f_of_int := f_of_int |}.

(** A binary64 value that is a number of finite magnitude: neither NaN nor
    an infinity. *)
Definition finite64 (x : float) : bool :=
  match Prim2SF x with
  | S754_zero _ | S754_finite _ _ _ => true
  | S754_infinity _ | S754_nan => false
  end.

(** The windowed sum of squares of a row, [(path[-w:] ** 2).sum()]. *)
Definition var_sum {F : Type} {A : Arith F} (w : Z) (path : list F) : F :=
  np_sum (np_square (slice_from (- w) path)).

(** The two states of a monitor: before and after a matrix is bound. *)
Inductive lifecycle : Type := Uninitialized | Ready.

Definition lifecycle_of {F : Type} (self : StructuralDecayMonitor F) : lifecycle :=
  match sim_paths self with
  | None => Uninitialized
  | Some _ => Ready
  end.

(** ** nvdd.py: the report *)

(** The one comparison of the source, [x > 1.0], needs an order on floats. *)
Class Cmp (F : Type) : Type := { f_ltb : F -> F -> bool }.

(** IEEE comparison: false as soon as an operand is NaN. *)
#[export] Instance binary64_cmp : Cmp float := { f_ltb := PrimFloat.ltb }.

#[export] Instance exact_cmp : Cmp Q := { f_ltb := fun x y => negb (Qle_bool y x) }.

Section Report.
Context {F : Type} {A : Arith F} {C : Cmp F}.

(** Python's conversions of a value to text inside an f-string: [{x}] for
    a float and for an int, [{x:.4f}] and [{x:.2%}]. *)
Variable str_float : F -> string.
Variable str_int : Z -> string.
Variable format_4f : F -> string.
Variable format_pct : F -> string.

Definition status_line (m : metrics F) : string :=
  if f_ltb (f_of_int 1) (avg_efficiency m)
  then ("STATUS: FAVORABLE. Trend (" ++ format_pct (avg_trend m)
        ++ ") > Drag (" ++ format_pct (avg_drag m) ++ ")")%string
  else "STATUS: DECAY REGIME. Volatility tax dominates."%string.

(** [run_diagnosis]: the lines printed, in order, and how the call ends.
    The metrics are computed before the first [print]. *)
Definition run_diagnosis (self : StructuralDecayMonitor F)
    : list string * (exception + unit) :=
  match compute_structural_greeks self with
  | inl e => ([], inl e)
  | inr m =>
      ([ ("--- [ " ++ ticker (config self)
          ++ " FORWARD STRUCTURAL DIAGNOSTIC ] ---")%string;
         ("Leverage Factor  : " ++ str_float (leverage_k (config self))
          ++ "x")%string;
         ("Lookback Window  : " ++ str_int (lookback_window (config self))
          ++ " days")%string;
         ("Expected Efficiency : " ++ format_4f (avg_efficiency m))%string;
         status_line m ],
       inr tt)
  end.
End Report.

(** A stand-in for the number formatting, for running the report on
    concrete inputs: every number prints as an underscore. *)
Definition blank {X : Type} (_ : X) : string := "_".

(** ** More notions used to state the properties *)

(** The first [k] draws of a generator, in the order they are made. *)
Fixpoint draws {F G : Type} (standard_normal : G -> F * G) (k : nat) (g : G)
    : list F :=
  match k with
  | O => []
  | S k' => let (z, g1) := standard_normal g in z :: draws standard_normal k' g1
  end.

(** The state of a generator after [k] draws. *)
Fixpoint after_draws {F G : Type} (standard_normal : G -> F * G) (k : nat) (g : G)
    : G :=
  match k with
  | O => g
  | S k' => after_draws standard_normal k' (snd (standard_normal g))
  end.

(** A binary64 datum whose sign bit is clear, or NaN: zero, a positive
    number or plus infinity when it is a number at all. *)
Definition sign_clear (x : spec_float) : bool :=
  match x with
  | S754_zero s | S754_infinity s | S754_finite s _ _ => negb s
  | S754_nan => true
  end.

(** NaN, as a test on the datum. *)
Definition nan64 (x : float) : bool :=
  match Prim2SF x with
  | S754_nan => true
  | _ => false
  end.

(** * Properties *)

(** ** Slices and windows *)

Lemma len_nonneg {A : Type} (l : list A) : 0 <= len l.
Proof. unfold len. lia. Qed.

Lemma last_entries_skipn {A : Type} (n : nat) (l : list A) :
  last_entries n l = skipn (List.length l - n) l.
Proof. unfold last_entries. now rewrite firstn_rev, rev_involutive. Qed.

(** For a positive window that fits, [path[-w:]] is the last [w] entries. *)
Lemma slice_from_last {A : Type} (w : Z) (l : list A) :
  0 < w -> w <= len l -> slice_from (- w) l = last_entries (Z.to_nat w) l.
Proof.
  intros Hpos Hfit. rewrite last_entries_skipn. unfold slice_from, len in *.
  replace (- w <? 0) with true by (symmetry; apply Z.ltb_lt; lia).
  f_equal. lia.
Qed.

(** With [w = 0] the slice [path[-0:]] is the whole list, not the empty one. *)
Lemma slice_from_zero {A : Type} (l : list A) : slice_from (- 0) l = l.
Proof.
  unfold slice_from. cbn [Z.opp Z.ltb Z.compare].
  now rewrite Z.min_l by apply len_nonneg.
Qed.

Lemma length_last_entries {A : Type} (n : nat) (l : list A) :
  (n <= List.length l)%nat -> List.length (last_entries n l) = n.
Proof. intros Hn. rewrite last_entries_skipn, length_skipn. lia. Qed.

(** Two lists of one length that agree from index [n] on have the same
    suffix from [n]. *)
Lemma skipn_ext {A : Type} (n : nat) (l1 l2 : list A) :
  List.length l1 = List.length l2 ->
  (forall i, (n <= i < List.length l1)%nat -> nth_error l1 i = nth_error l2 i) ->
  skipn n l1 = skipn n l2.
Proof.
  revert l1 l2. induction n as [|n IH]; intros l1 l2 Hlen Hnth.
  - cbn [skipn]. apply nth_error_ext. intros i.
    destruct (Nat.lt_ge_cases i (List.length l1)) as [Hi|Hi].
    + apply Hnth. lia.
    + rewrite (proj2 (nth_error_None l1 i)) by lia.
      now rewrite (proj2 (nth_error_None l2 i)) by lia.
  - destruct l1 as [|x1 l1], l2 as [|x2 l2]; try discriminate; trivial.
    cbn [skipn]. apply IH.
    + now injection Hlen.
    + intros i Hi. apply (Hnth (S i)). cbn [List.length]. lia.
Qed.

(** ** The loop of [compute_structural_greeks] *)

Section NvddFacts.
Context {F : Type} {A : Arith F}.

Lemma loop_body_included k w acc path :
  included w path = true ->
  loop_body k w acc path =
    {| trends := trends acc ++ [trend (path_metrics k w path)];
       drags := drags acc ++ [drag (path_metrics k w path)];
       effs := effs acc ++ [eff (path_metrics k w path)] |}.
Proof.
  unfold included, loop_body. intros Hinc.
  apply Z.leb_le in Hinc.
  now replace (len path <? w) with false by (symmetry; apply Z.ltb_ge; lia).
Qed.

Lemma loop_body_excluded k w acc path :
  included w path = false -> loop_body k w acc path = acc.
Proof.
  unfold included, loop_body. intros Hexc.
  apply Z.leb_gt in Hexc.
  now replace (len path <? w) with true by (symmetry; apply Z.ltb_lt; lia).
Qed.

(** The loop appends, in order, the metrics of the included rows. *)
Lemma loop_appends k w paths : forall acc,
  fold_left (loop_body k w) paths acc =
    let ms := map (path_metrics k w) (included_paths w paths) in
    {| trends := trends acc ++ map trend ms;
       drags := drags acc ++ map drag ms;
       effs := effs acc ++ map eff ms |}.
Proof.
  induction paths as [|path paths IH]; intros acc; cbn [fold_left].
  - cbn. rewrite !app_nil_r. now destruct acc.
  - rewrite IH. unfold included_paths. cbn [filter].
    destruct (included w path) eqn:Hinc.
    + rewrite loop_body_included by assumption. cbn.
      now rewrite <- !app_assoc.
    + now rewrite loop_body_excluded by assumption.
Qed.

Lemma compute_loaded (self : StructuralDecayMonitor F) paths :
  sim_paths self = Some paths ->
  compute_structural_greeks self =
    let k := leverage_k (config self) in
    let w := lookback_window (config self) in
    let ms := map (path_metrics k w) (included_paths w paths) in
    inr {| avg_trend := np_mean (map trend ms);
           avg_drag := np_mean (map drag ms);
           avg_efficiency := np_mean (map eff ms) |}.
Proof.
  intros Hload. unfold compute_structural_greeks. rewrite Hload.
  now rewrite loop_appends.
Qed.

Lemma included_paths_nil w (paths : list (list F)) :
  (forall p, In p paths -> len p < w) -> included_paths w paths = [].
Proof.
  intros Hshort. induction paths as [|p paths IH]; trivial.
  unfold included_paths in *. cbn [filter].
  replace (included w p) with false.
  - apply IH. intros q Hq. apply Hshort. now right.
  - symmetry. apply Z.leb_gt, Hshort. now left.
Qed.
End NvddFacts.

(** ** Per-path metrics *)



(** C10.  Two rows of one length, at least the window, that agree on their
    last [lookback_window] entries have the same per-path metrics, whatever
    their earlier entries are. *)
Theorem metrics_depend_on_window_only {F : Type} {A : Arith F}
    (k : F) (w : Z) (p1 p2 : list F) :
  0 < w -> len p1 = len p2 -> w <= len p1 ->
  (forall i : nat, len p1 - w <= Z.of_nat i < len p1 ->
     nth_error p1 i = nth_error p2 i) ->
  path_metrics k w p1 = path_metrics k w p2 /\
  forall acc, loop_body k w acc p1 = loop_body k w acc p2.
Proof.
  intros Hpos Hlen Hfit Hagree.
  assert (Hwin : slice_from (- w) p1 = slice_from (- w) p2).
  { rewrite !slice_from_last by lia. rewrite !last_entries_skipn.
    unfold len in *.
    replace (List.length p2) with (List.length p1) by lia.
    apply skipn_ext; [lia|]. intros i Hi. apply Hagree. lia. }
  assert (Hm : path_metrics k w p1 = path_metrics k w p2).
  { unfold path_metrics. now rewrite Hwin. }
  split; [exact Hm|]. intros acc. unfold loop_body. now rewrite Hlen, Hm.
Qed.

Lemma metrics_depend_on_window_only_witness :
  path_metrics 1%float 2 [8%float; 0.5%float; (-0.25)%float] =
  path_metrics 1%float 2 [(-3)%float; 0.5%float; (-0.25)%float].
Proof.
  refine (proj1 (metrics_depend_on_window_only (A := binary64) 1%float (w := 2)
            [8%float; 0.5%float; (-0.25)%float]
            [(-3)%float; 0.5%float; (-0.25)%float] _ _ _ _)).
  - lia.
  - reflexivity.
  - vm_compute; discriminate.
  - intros [|[|[|i]]] Hi; try reflexivity; exfalso; revert Hi;
      unfold len; cbn [List.length]; lia.
Defined.

(** ** Aggregation *)

Lemma included_paths_idem {A : Type} (w : Z) (paths : list (list A)) :
  included_paths w (included_paths w paths) = included_paths w paths.
Proof.
  unfold included_paths. induction paths as [|p paths IH]; trivial.
  cbn [filter]. destruct (included w p) eqn:Hinc; trivial.
  cbn [filter]. rewrite Hinc. now f_equal.
Qed.

Lemma In_included_paths {A : Type} (w : Z) (paths : list (list A)) (p : list A) :
  In p (included_paths w paths) <-> In p paths /\ w <= len p.
Proof.
  unfold included_paths, included. rewrite filter_In.
  now rewrite Z.leb_le.
Qed.



(** ** The monitor's life cycle *)

(** C6.  A monitor is [Uninitialized] when created and [Ready] once a matrix
    has been loaded; computing on an [Uninitialized] monitor fails with the
    error "No simulated paths loaded.", and computing on a [Ready] one
    returns metrics, so it does not fail with that error. *)
Theorem compute_needs_loaded_paths {F : Type} {A : Arith F} :
  (forall c : VolatilityDragConfig F, lifecycle_of (init c) = Uninitialized) /\
  (forall (self : StructuralDecayMonitor F) paths,
     lifecycle_of (load_simulated_returns self paths) = Ready) /\
  (forall self : StructuralDecayMonitor F,
     lifecycle_of self = Uninitialized ->
     compute_structural_greeks self =
       inl (RuntimeError "No simulated paths loaded.")) /\
  (forall self : StructuralDecayMonitor F,
     lifecycle_of self = Ready ->
     exists m, compute_structural_greeks self = inr m).
Proof.
  repeat split; trivial.
  - intros self. unfold lifecycle_of, compute_structural_greeks.
    now destruct (sim_paths self).
  - intros self. unfold lifecycle_of, compute_structural_greeks.
    destruct (sim_paths self); [eauto|discriminate].
Qed.

(** ** No row long enough *)

(** Counterexample to C1: two rows of lengths 2 and 1 under the default
    window of 10.  Every row is shorter than the window, and the computation
    returns three NaN averages; it raises nothing. *)
Lemma insufficient_data_not_raised :
  let paths := [[0.5%float; 0.25%float]; [1%float]] in
  let self := load_simulated_returns (init (default_config "NVDD")) paths in
  (forall p, In p paths -> len p < lookback_window (config self)) /\
  compute_structural_greeks self =
    inr {| avg_trend := nan; avg_drag := nan; avg_efficiency := nan |} /\
  ~ (exists e, compute_structural_greeks self = inl e).
Proof.
  cbv zeta. split; [|split].
  - intros p [<-|[<-|[]]]; vm_compute; reflexivity.
  - vm_compute. reflexivity.
  - intros [e He]. vm_compute in He. discriminate.
Qed.

(** C1, as the code has it.  When every row is shorter than the window the
    three lists stay empty, [np.mean] of an empty list is [0.0 / 0], and
    the computation returns NaN for each average without raising. *)
Theorem all_paths_too_short_gives_nan
    (self : StructuralDecayMonitor float) (paths : list (list float)) :
  sim_paths self = Some paths ->
  (forall p, In p paths -> len p < lookback_window (config self)) ->
  compute_structural_greeks self =
    inr {| avg_trend := nan; avg_drag := nan; avg_efficiency := nan |}.
Proof.
  intros Hload Hshort. rewrite (compute_loaded self Hload). cbv zeta.
  now rewrite (included_paths_nil _ Hshort).
Qed.

Lemma all_paths_too_short_gives_nan_witness :
  compute_structural_greeks
    (load_simulated_returns (init (default_config "NVDD"))
       [[0.5%float; 0.25%float]; [1%float]]) =
    inr {| avg_trend := nan; avg_drag := nan; avg_efficiency := nan |}.
Proof.
  apply (@all_paths_too_short_gives_nan _ [[0.5%float; 0.25%float]; [1%float]]).
  - reflexivity.
  - intros p [<-|[<-|[]]]; vm_compute; reflexivity.
Defined.

(** ** The simulation *)

Section SimulationFacts.
Context {F : Type} {A : Arith F} {R : Sqrt F}.
Variable Generator : Type.
Variable default_rng : Z -> Generator.
Variable standard_normal : Generator -> F * Generator.
Variable GlobalState : Type.

Lemma length_draw_row loc scale d : forall g,
  List.length (fst (draw_row standard_normal loc scale d g)) = d.
Proof.
  induction d as [|d IH]; intros g; cbn [draw_row]; trivial.
  destruct (standard_normal g) as [z g1].
  specialize (IH g1). destruct (draw_row standard_normal loc scale d g1).
  cbn in *. now f_equal.
Qed.

Lemma draw_rows_shape loc scale n d : forall g,
  let rows := fst (draw_rows standard_normal loc scale n d g) in
  List.length rows = n /\ Forall (fun row => List.length row = d) rows.
Proof.
  induction n as [|n IH]; intros g; cbn [draw_rows].
  - split; [reflexivity|constructor].
  - pose proof (length_draw_row loc scale d g) as Hrow.
    destruct (draw_row standard_normal loc scale d g) as [row g1].
    specialize (IH g1).
    destruct (draw_rows standard_normal loc scale n d g1) as [rows g2].
    cbn in *. destruct IH as [Hn Hall]. split; [now f_equal|].
    now constructor.
Qed.

(** What [rng.normal] does with the requested size. *)
Lemma normal_cases g loc scale n d :
  (n < 0 \/ d < 0) /\
    normal standard_normal g loc scale (n, d) =
      inl (ValueError "negative dimensions are not allowed")
  \/ (0 <= n /\ 0 <= d) /\
    normal standard_normal g loc scale (n, d) =
      inr (draw_rows standard_normal loc scale (Z.to_nat n) (Z.to_nat d) g).
Proof.
  unfold normal.
  destruct (n <? 0) eqn:Hn; [left; split; trivial; left; now apply Z.ltb_lt|].
  destruct (d <? 0) eqn:Hd; [left; split; trivial; right; now apply Z.ltb_lt|].
  right. apply Z.ltb_ge in Hn, Hd. now split.
Qed.



End SimulationFacts.



(** ** Monotonicity of the windowed sum of squares *)

(** A longer window is the shorter one with entries put in front. *)
Lemma slice_from_extend {A : Type} (w1 w2 : Z) (l : list A) :
  0 < w1 -> w1 <= w2 -> w2 <= len l ->
  exists pre, slice_from (- w2) l = pre ++ slice_from (- w1) l.
Proof.
  intros Hpos Hle Hfit. rewrite !slice_from_last by lia.
  rewrite !last_entries_skipn. unfold len in Hfit.
  set (a := (List.length l - Z.to_nat w2)%nat).
  set (b := (Z.to_nat w2 - Z.to_nat w1)%nat).
  exists (firstn b (skipn a l)).
  replace (List.length l - Z.to_nat w1)%nat with (b + a)%nat by (unfold a, b; lia).
  rewrite <- skipn_skipn. symmetry. apply firstn_skipn.
Qed.

Lemma Forall_slice_from {A : Type} (P : A -> Prop) (start : Z) (l : list A) :
  Forall P l -> Forall P (slice_from start l).
Proof.
  intros Hall. unfold slice_from.
  rewrite <- (firstn_skipn (Z.to_nat (if start <? 0 then Z.max 0 (len l + start)
                                       else Z.min start (len l))) l) in Hall.
  now apply Forall_app in Hall.
Qed.

(** The facts about the arithmetic that the argument uses, as hypotheses:
    an order in which sums of non-negative values are non-negative and
    adding a non-negative value is monotone.  Exact arithmetic has them. *)
Section Monotonicity.
Context {F : Type} {A : Arith F}.
Variable le : F -> F -> Prop.
Hypothesis le_zero : le f_zero f_zero.
Hypothesis add_nonneg :
  forall x a, le f_zero x -> le f_zero a -> le f_zero (f_add x a).
Hypothesis add_mono :
  forall x y a, le f_zero a -> le f_zero x -> le x y ->
                le (f_add x a) (f_add y a).

Lemma fold_add_nonneg (l : list F) :
  Forall (le f_zero) l ->
  forall x, le f_zero x -> le f_zero (fold_left f_add l x).
Proof.
  induction 1 as [|a l Ha _ IH]; intros x Hx; cbn [fold_left]; auto.
Qed.

Lemma fold_add_mono (l : list F) :
  Forall (le f_zero) l ->
  forall x y, le f_zero x -> le x y ->
              le (fold_left f_add l x) (fold_left f_add l y).
Proof.
  induction 1 as [|a l Ha _ IH]; intros x y Hx Hxy; cbn [fold_left]; auto.
Qed.

Lemma var_sum_le (path : list F) (w1 w2 : Z) :
  Forall (fun x => le f_zero (f_sq x)) path ->
  0 < w1 -> w1 <= w2 -> w2 <= len path ->
  le (var_sum w1 path) (var_sum w2 path).
Proof.
  intros Hsq Hpos Hle Hfit. unfold var_sum, np_sum, np_square.
  assert (Hwin : Forall (le f_zero) (map f_sq (slice_from (- w2) path))).
  { apply Forall_map. now apply Forall_slice_from. }
  destruct (slice_from_extend path Hpos Hle Hfit) as [pre Hpre].
  rewrite Hpre in *. rewrite map_app in *. rewrite fold_left_app.
  apply Forall_app in Hwin. destruct Hwin as [Hp Hw].
  apply fold_add_mono; trivial.
  now apply fold_add_nonneg.
Qed.
End Monotonicity.

Lemma Qsq_nonneg (x : Q) : (0 <= x * x)%Q.
Proof. unfold Qle, Qmult. cbn. nia. Qed.

Lemma Qadd_mono (x y a : Q) : (0 <= a -> 0 <= x -> x <= y -> x + a <= y + a)%Q.
Proof. intros _ _ Hxy. apply Qplus_le_compat; [exact Hxy|apply Qle_refl]. Qed.

Lemma Qadd_nonneg (x a : Q) : (0 <= x -> 0 <= a -> 0 <= x + a)%Q.
Proof.
  intros Hx Ha. apply (Qplus_le_compat 0 x 0 a) in Hx; trivial.
Qed.



(** ** Zero leverage, in binary64 *)

Lemma eqb_zero_inv (x : float) :
  (x =? 0)%float = true -> exists s, Prim2SF x = S754_zero s.
Proof.
  intros Hx. rewrite FloatAxioms.eqb_spec in Hx.
  change (Prim2SF 0) with (S754_zero false) in Hx.
  destruct (Prim2SF x) as [s|s| |s m e];
    [eauto | destruct s; discriminate | discriminate | destruct s; discriminate].
Qed.

Lemma zero_sq_half (k : float) :
  (k =? 0)%float = true -> (k * k / 2)%float = 0%float.
Proof.
  intros Hk. destruct (@eqb_zero_inv _ Hk) as [s Hs].
  apply Prim2SF_inj. rewrite div_spec, mul_spec, Hs.
  destruct s; reflexivity.
Qed.

Lemma zero_mul_cases (v : float) :
  if finite64 v
  then exists s, Prim2SF (0 * v)%float = S754_zero s
  else Prim2SF (0 * v)%float = S754_nan.
Proof.
  unfold finite64. rewrite mul_spec.
  change (Prim2SF 0) with (S754_zero false).
  destruct (Prim2SF v) as [s|s| |s m e]; cbn; eauto.
Qed.

Lemma zero_add_eps (d : float) (s : bool) :
  Prim2SF d = S754_zero s ->
  (d + 0x1.5798ee2308c3ap-27)%float = 0x1.5798ee2308c3ap-27%float.
Proof.
  intros Hd. apply Prim2SF_inj. rewrite add_spec, Hd. reflexivity.
Qed.

Lemma is_nan_spec (x : float) : Prim2SF x = S754_nan -> is_nan x = true.
Proof.
  intros Hx. unfold is_nan. now rewrite FloatAxioms.eqb_spec, Hx.
Qed.

Lemma nan_add (x y : float) :
  Prim2SF x = S754_nan -> Prim2SF (x + y)%float = S754_nan.
Proof. intros Hx. rewrite add_spec, Hx. reflexivity. Qed.

Lemma div_nan (x y : float) :
  Prim2SF y = S754_nan -> Prim2SF (x / y)%float = S754_nan.
Proof.
  intros Hy. rewrite div_spec, Hy. now destruct (Prim2SF x).
Qed.




(** * Further properties of the code *)

(** ** Windows that are not positive *)

(** X1.  With [lookback_window <= 0] no row is skipped, and the window
    [path[-w:]] is the row without its first [-w] entries: for
    [lookback_window = 0] it is the whole row, not an empty window. *)
Theorem nonpositive_window_keeps_every_row {F : Type} {A : Arith F}
    (k : F) (w : Z) (path : list F) (acc : accumulators F) :
  w <= 0 ->
  included w path = true /\
  slice_from (- w) path = skipn (Z.to_nat (- w)) path /\
  (w = 0 -> slice_from (- w) path = path) /\
  loop_body k w acc path =
    {| trends := trends acc ++ [trend (path_metrics k w path)];
       drags := drags acc ++ [drag (path_metrics k w path)];
       effs := effs acc ++ [eff (path_metrics k w path)] |}.
Proof.
  intros Hw.
  assert (Hinc : included w path = true).
  { unfold included. apply Z.leb_le. pose proof (len_nonneg path). lia. }
  assert (Hslice : slice_from (- w) path = skipn (Z.to_nat (- w)) path).
  { unfold slice_from.
    replace (- w <? 0) with false by (symmetry; apply Z.ltb_ge; lia).
    destruct (Z.le_gt_cases (- w) (len path)) as [Hle|Hgt].
    - now rewrite Z.min_l.
    - rewrite Z.min_r by lia. unfold len in *.
      rewrite !skipn_all2; trivial; lia. }
  split; [exact Hinc|]. split; [exact Hslice|]. split.
  - intros ->. apply slice_from_zero.
  - now apply loop_body_included.
Qed.

Lemma nonpositive_window_keeps_every_row_witness :
  included 0 [0.5%float; 2%float] = true /\
  slice_from (- 0) [0.5%float; 2%float] = [0.5%float; 2%float] /\
  slice_from (- (-1)) [0.5%float; 2%float] = [2%float].
Proof.
  pose proof (nonpositive_window_keeps_every_row (A := binary64) 1%float (w := 0)
                [0.5%float; 2%float] no_metrics ltac:(lia)) as [H0 [_ [H1 _]]].
  pose proof (nonpositive_window_keeps_every_row (A := binary64) 1%float (w := -1)
                [0.5%float; 2%float] no_metrics ltac:(lia)) as [_ [H2 _]].
  split; [exact H0|]. split; [exact (H1 eq_refl)|exact H2].
Defined.

(** ** The simulated matrix and the generator's draws *)

Section DrawFacts.
Context {F : Type} {A : Arith F} {R : Sqrt F}.
Variable Generator : Type.
Variable default_rng : Z -> Generator.
Variable standard_normal : Generator -> F * Generator.
Variable GlobalState : Type.

Lemma draws_app (a b : nat) : forall g,
  draws standard_normal (a + b) g =
    draws standard_normal a g
    ++ draws standard_normal b (after_draws standard_normal a g).
Proof.
  induction a as [|a IH]; intros g; cbn [Nat.add draws after_draws app]; trivial.
  destruct (standard_normal g) as [z g1]. cbn [snd app]. now rewrite IH.
Qed.

Lemma after_draws_app (a b : nat) : forall g,
  after_draws standard_normal (a + b) g =
    after_draws standard_normal b (after_draws standard_normal a g).
Proof.
  induction a as [|a IH]; intros g; cbn [Nat.add after_draws]; trivial.
Qed.

Lemma draw_row_draws loc scale d : forall g,
  draw_row standard_normal loc scale d g =
    (map (fun z => f_add loc (f_mul scale z)) (draws standard_normal d g),
     after_draws standard_normal d g).
Proof.
  induction d as [|d IH]; intros g; cbn [draw_row draws after_draws map]; trivial.
  destruct (standard_normal g) as [z g1]. cbn [snd]. now rewrite IH.
Qed.

Lemma draw_rows_draws loc scale n d : forall g,
  List.concat (fst (draw_rows standard_normal loc scale n d g)) =
    map (fun z => f_add loc (f_mul scale z)) (draws standard_normal (n * d) g)
  /\ snd (draw_rows standard_normal loc scale n d g) =
       after_draws standard_normal (n * d) g.
Proof.
  induction n as [|n IH]; intros g; cbn [draw_rows Nat.mul]; [now split|].
  rewrite draw_row_draws.
  specialize (IH (after_draws standard_normal d g)).
  destruct (draw_rows standard_normal loc scale n d
              (after_draws standard_normal d g)) as [rows g2].
  cbn [fst snd List.concat] in *. destruct IH as [Hrows Hg]. split.
  - now rewrite Hrows, draws_app, map_app.
  - now rewrite Hg, after_draws_app.
Qed.

Lemma draw_rows_app loc scale n m d : forall g,
  fst (draw_rows standard_normal loc scale (n + m) d g) =
    fst (draw_rows standard_normal loc scale n d g)
    ++ fst (draw_rows standard_normal loc scale m d
              (snd (draw_rows standard_normal loc scale n d g))).
Proof.
  induction n as [|n IH]; intros g; cbn [Nat.add draw_rows]; trivial.
  destruct (draw_row standard_normal loc scale d g) as [row g1].
  specialize (IH g1).
  destruct (draw_rows standard_normal loc scale (n + m) d g1) as [rows g2].
  destruct (draw_rows standard_normal loc scale n d g1) as [rows1 g3].
  cbn [fst snd app] in *. now rewrite IH.
Qed.

(** The matrix a call returns when both dimensions are non-negative. *)
Lemma simulate_returns (spot forward_variance : F)
    (days_to_expiry n_paths seed : Z) (st : GlobalState) :
  0 <= days_to_expiry -> 0 <= n_paths ->
  simulate_log_return_paths default_rng standard_normal
    spot forward_variance days_to_expiry n_paths seed st =
  (inr (fst (draw_rows standard_normal f_zero
               (f_div (f_sqrt forward_variance) (f_sqrt (f_of_int 252)))
               (Z.to_nat n_paths) (Z.to_nat days_to_expiry) (default_rng seed))),
   st).
Proof.
  intros Hd Hn. unfold simulate_log_return_paths, normal.
  replace (n_paths <? 0) with false by (symmetry; apply Z.ltb_ge; lia).
  replace (days_to_expiry <? 0) with false by (symmetry; apply Z.ltb_ge; lia).
  cbn [orb].
  now destruct (draw_rows standard_normal f_zero _ (Z.to_nat n_paths)
                  (Z.to_nat days_to_expiry) (default_rng seed)).
Qed.


End DrawFacts.



(** ** Simulating, loading and computing *)

Lemma included_paths_all {A : Type} (w : Z) (paths : list (list A)) :
  Forall (fun p => w <= len p) paths -> included_paths w paths = paths.
Proof.
  unfold included_paths. induction 1 as [|p paths Hp _ IH]; trivial.
  cbn [filter]. replace (included w p) with true.
  - now f_equal.
  - symmetry. now apply Z.leb_le.
Qed.

Section Pipeline.
Context {F : Type} {A : Arith F} {R : Sqrt F}.
Variable Generator : Type.
Variable default_rng : Z -> Generator.
Variable standard_normal : Generator -> F * Generator.
Variable GlobalState : Type.

(** The simulated matrix has [n_paths] rows of [days_to_expiry] entries. *)
Lemma simulate_shape (spot forward_variance : F)
    (days_to_expiry n_paths seed : Z) (st : GlobalState) :
  0 <= days_to_expiry -> 0 <= n_paths ->
  exists log_rets,
    fst (simulate_log_return_paths default_rng standard_normal
           spot forward_variance days_to_expiry n_paths seed st) = inr log_rets /\
    len log_rets = n_paths /\
    Forall (fun row => len row = days_to_expiry) log_rets.
Proof.
  intros Hd Hn. rewrite simulate_returns by assumption. cbn [fst].
  eexists. split; [reflexivity|].
  pose proof (draw_rows_shape standard_normal f_zero
                (f_div (f_sqrt forward_variance) (f_sqrt (f_of_int 252)))
                (Z.to_nat n_paths) (Z.to_nat days_to_expiry)
                (default_rng seed)) as [Hlen Hrows].
  split.
  - unfold len. rewrite Hlen. lia.
  - eapply Forall_impl; [|exact Hrows]. intros row Hrow. cbv beta in Hrow.
    unfold len. lia.
Qed.


(** When the horizon is shorter than the window, the loop skips every
    simulated row. *)
Lemma simulated_rows_all_skipped (w : Z)
    (spot forward_variance : F) (days_to_expiry n_paths seed : Z)
    (st : GlobalState) :
  0 <= n_paths -> 0 <= days_to_expiry -> days_to_expiry < w ->
  exists log_rets,
    fst (simulate_log_return_paths default_rng standard_normal
           spot forward_variance days_to_expiry n_paths seed st) = inr log_rets /\
    included_paths w log_rets = [].
Proof.
  intros Hn Hd Hw.
  destruct (simulate_shape spot forward_variance seed st Hd Hn)
    as [log_rets [Hsim [Hlen Hrows]]].
  exists log_rets. split; [exact Hsim|].
  apply included_paths_nil. intros p Hp.
  rewrite Forall_forall in Hrows. rewrite (Hrows p Hp). exact Hw.
Qed.
End Pipeline.


(** ** The report *)

Section ReportFacts.
Context {F : Type} {A : Arith F} {C : Cmp F}.
Variable str_float : F -> string.
Variable str_int : Z -> string.
Variable format_4f : F -> string.
Variable format_pct : F -> string.

End ReportFacts.


Section ReportBinary64.
Variable str_float : float -> string.
Variable str_int : Z -> string.
Variable format_4f : float -> string.
Variable format_pct : float -> string.

Lemma report_of_nan (self : StructuralDecayMonitor float) :
  compute_structural_greeks self =
    inr {| avg_trend := nan; avg_drag := nan; avg_efficiency := nan |} ->
  run_diagnosis str_float str_int format_4f format_pct self =
    ([ ("--- [ " ++ ticker (config self)
        ++ " FORWARD STRUCTURAL DIAGNOSTIC ] ---")%string;
       ("Leverage Factor  : " ++ str_float (leverage_k (config self))
        ++ "x")%string;
       ("Lookback Window  : " ++ str_int (lookback_window (config self))
        ++ " days")%string;
       ("Expected Efficiency : " ++ format_4f nan)%string;
       "STATUS: DECAY REGIME. Volatility tax dominates."%string ],
     inr tt).
Proof.
  intros Hnan. unfold run_diagnosis. rewrite Hnan. reflexivity.
Qed.

Lemma compute_nothing_included (self : StructuralDecayMonitor float)
    (paths : list (list float)) :
  sim_paths self = Some paths ->
  included_paths (lookback_window (config self)) paths = [] ->
  compute_structural_greeks self =
    inr {| avg_trend := nan; avg_drag := nan; avg_efficiency := nan |}.
Proof.
  intros Hload Hnone. rewrite (compute_loaded self Hload). cbv zeta.
  now rewrite Hnone.
Qed.

(** X6.  Insufficient data is reported as a decay regime.  When every
    loaded row is shorter than the window (or the matrix has no row), the
    report raises nothing: the efficiency printed is that of NaN and the
    status line is the DECAY REGIME one, because [NaN > 1.0] is false. *)
Theorem insufficient_data_reported_as_decay
    (self : StructuralDecayMonitor float) (paths : list (list float)) :
  sim_paths self = Some paths ->
  (forall p, In p paths -> len p < lookback_window (config self)) ->
  run_diagnosis str_float str_int format_4f format_pct self =
    ([ ("--- [ " ++ ticker (config self)
        ++ " FORWARD STRUCTURAL DIAGNOSTIC ] ---")%string;
       ("Leverage Factor  : " ++ str_float (leverage_k (config self))
        ++ "x")%string;
       ("Lookback Window  : " ++ str_int (lookback_window (config self))
        ++ " days")%string;
       ("Expected Efficiency : " ++ format_4f nan)%string;
       "STATUS: DECAY REGIME. Volatility tax dominates."%string ],
     inr tt).
Proof.
  intros Hload Hshort. apply report_of_nan.
  apply (compute_nothing_included self Hload).
  now apply included_paths_nil.
Qed.

Variable Generator : Type.
Variable default_rng : Z -> Generator.
Variable standard_normal : Generator -> float * Generator.
Variable GlobalState : Type.

End ReportBinary64.

Lemma insufficient_data_reported_as_decay_witness :
  run_diagnosis blank blank blank blank
    (load_simulated_returns (init (default_config "NVDD"))
       [[0.5%float; 0.25%float]; [1%float]]) =
  ([ "--- [ NVDD FORWARD STRUCTURAL DIAGNOSTIC ] ---"%string;
     "Leverage Factor  : _x"%string;
     "Lookback Window  : _ days"%string;
     "Expected Efficiency : _"%string;
     "STATUS: DECAY REGIME. Volatility tax dominates."%string ],
   inr tt).
Proof.
  refine (insufficient_data_reported_as_decay blank blank blank blank
            (load_simulated_returns (init (default_config "NVDD"))
               [[0.5%float; 0.25%float]; [1%float]]) eq_refl _).
  intros p [<-|[<-|[]]]; vm_compute; reflexivity.
Defined.


(** ** Signs in binary64 *)

(** Rounding gives the result the sign it is asked for, or NaN. *)
Lemma binary_round_aux_sign_clear (m e : Z) (l : location) :
  sign_clear (binary_round_aux prec emax false m e l) = true.
Proof.
  unfold binary_round_aux.
  destruct (shr_fexp prec emax m e l) as [mrs1 e1].
  destruct (shr_fexp prec emax _ e1 loc_Exact) as [mrs2 e2].
  destruct (shr_m mrs2); trivial.
  now destruct (Z.leb e2 (emax - prec)).
Qed.

Lemma SFmul_sign_clear (x y : spec_float) :
  sign_clear x = true -> sign_clear y = true ->
  sign_clear (SF64mul x y) = true.
Proof.
  destruct x as [[]|[]| |[] mx ex], y as [[]|[]| |[] my ey];
    try discriminate; intros _ _; try reflexivity.
  apply binary_round_aux_sign_clear.
Qed.

Lemma SFsquare_sign_clear (x : spec_float) : sign_clear (SF64mul x x) = true.
Proof.
  destruct x as [[]|[]| |[] mx ex]; try reflexivity;
    apply binary_round_aux_sign_clear.
Qed.

Lemma SFadd_sign_clear (x y : spec_float) :
  sign_clear x = true -> sign_clear y = true ->
  sign_clear (SF64add x y) = true.
Proof.
  destruct x as [[]|[]| |[] mx ex], y as [[]|[]| |[] my ey];
    try discriminate; intros _ _; try reflexivity.
  unfold SF64add, SFadd. cbn [cond_Zopp Z.add].
  unfold binary_normalize, binary_round.
  destruct (shl_align _ _ _) as [mz ez].
  apply binary_round_aux_sign_clear.
Qed.

Lemma SFdiv_sign_clear (x y : spec_float) :
  sign_clear x = true -> sign_clear y = true ->
  sign_clear (SF64div x y) = true.
Proof.
  destruct x as [[]|[]| |[] mx ex], y as [[]|[]| |[] my ey];
    try discriminate; intros _ _; try reflexivity.
  unfold SF64div, SFdiv.
  destruct (SFdiv_core_binary prec emax (Zpos mx) ex (Zpos my) ey) as [[mz ez] lz].
  apply binary_round_aux_sign_clear.
Qed.

Lemma SFabs_sign_clear (x : spec_float) : sign_clear (SFabs x) = true.
Proof. now destruct x. Qed.

Lemma sign_clear_not_negative (x : float) :
  sign_clear (Prim2SF x) = true -> (x <? 0)%float = false.
Proof.
  intros Hx. rewrite ltb_spec. change (Prim2SF 0) with (S754_zero false).
  destruct (Prim2SF x) as [[]|[]| |[] m e]; try discriminate; reflexivity.
Qed.

Lemma np_sum_sign_clear (l : list float) :
  Forall (fun x => sign_clear (Prim2SF x) = true) l ->
  forall init, sign_clear (Prim2SF init) = true ->
  sign_clear (Prim2SF (fold_left PrimFloat.add l init)) = true.
Proof.
  induction 1 as [|x l Hx _ IH]; intros init Hinit; cbn [fold_left]; trivial.
  apply IH. rewrite add_spec. now apply SFadd_sign_clear.
Qed.

(** X8.  No per-path metric is ever negative.  Whatever the leverage, the
    window and the returns are (NaN and infinities included), the trend,
    the drag and the efficiency of a row each have a clear sign bit or are
    NaN, so each compares as not less than zero. *)
Theorem metrics_never_negative (k : float) (w : Z) (path : list float) :
  let m := path_metrics k w path in
  (trend m <? 0)%float = false /\
  (drag m <? 0)%float = false /\
  (eff m <? 0)%float = false.
Proof.
  cbv zeta. unfold path_metrics. cbn [trend drag eff].
  cbn [f_mul f_div f_add f_abs f_sq f_two f_eps binary64].
  set (window := slice_from (- w) path).
  assert (Ht : sign_clear (Prim2SF (abs (np_sum window))) = true).
  { rewrite abs_spec. apply SFabs_sign_clear. }
  assert (Hv : sign_clear (Prim2SF (np_sum (np_square window))) = true).
  { unfold np_sum. apply np_sum_sign_clear; [|reflexivity].
    unfold np_square. apply Forall_map, Forall_forall. intros x _.
    unfold f_sq. cbn [f_mul binary64]. rewrite mul_spec.
    apply SFsquare_sign_clear. }
  assert (Hd : sign_clear (Prim2SF (k * k / 2 * np_sum (np_square window))%float)
               = true).
  { rewrite mul_spec. apply SFmul_sign_clear; [|exact Hv].
    rewrite div_spec. apply SFdiv_sign_clear; [|reflexivity].
    rewrite mul_spec. apply SFsquare_sign_clear. }
  split; [now apply sign_clear_not_negative|].
  split; [now apply sign_clear_not_negative|].
  apply sign_clear_not_negative. rewrite div_spec.
  apply SFdiv_sign_clear; [exact Ht|].
  rewrite add_spec. apply SFadd_sign_clear; [exact Hd|reflexivity].
Qed.

(** ** The sign of the leverage *)

Lemma opp_square (k : float) : (- k * - k)%float = (k * k)%float.
Proof.
  apply Prim2SF_inj. rewrite !mul_spec, opp_spec.
  destruct (Prim2SF k) as [[]|[]| |[] m e]; reflexivity.
Qed.

(** X9.  Only the magnitude of the leverage matters.  A leverage of [-k]
    (an inverse fund) gives every row the same trend, drag and efficiency
    as a leverage of [k], and so the same three averages. *)
Theorem leverage_sign_is_irrelevant (t : string) (k r : float) (w : Z)
    (paths : list (list float)) :
  (forall path, path_metrics (- k)%float w path = path_metrics k w path) /\
  compute_structural_greeks
    (load_simulated_returns
       (init {| ticker := t; leverage_k := (- k)%float;
                lookback_window := w; risk_free_rate := r |}) paths) =
  compute_structural_greeks
    (load_simulated_returns
       (init {| ticker := t; leverage_k := k;
                lookback_window := w; risk_free_rate := r |}) paths).
Proof.
  assert (Hm : forall path,
             path_metrics (- k)%float w path = path_metrics k w path).
  { intros path. unfold path_metrics, f_sq. cbn [f_mul binary64].
    now rewrite opp_square. }
  split; [exact Hm|].
  rewrite !(compute_loaded (load_simulated_returns (init _) paths) eq_refl).
  cbn [load_simulated_returns init config leverage_k lookback_window].
  cbv zeta. do 3 f_equal; f_equal; apply map_ext; intros p; apply Hm.
Qed.

(** ** NaN in binary64 *)

Lemma nan64_eq (x : float) : nan64 x = true -> x = nan.
Proof.
  unfold nan64. intros Hx. apply Prim2SF_inj.
  change (Prim2SF nan) with S754_nan.
  now destruct (Prim2SF x).
Qed.

Lemma add_nan_l (y : float) : (nan + y)%float = nan.
Proof. apply Prim2SF_inj. rewrite add_spec. reflexivity. Qed.

Lemma add_nan_r (x : float) : (x + nan)%float = nan.
Proof.
  apply Prim2SF_inj. rewrite add_spec.
  change (Prim2SF nan) with S754_nan. now destruct (Prim2SF x).
Qed.

Lemma mul_nan_l (y : float) : (nan * y)%float = nan.
Proof. apply Prim2SF_inj. rewrite mul_spec. reflexivity. Qed.

Lemma mul_nan_r (x : float) : (x * nan)%float = nan.
Proof.
  apply Prim2SF_inj. rewrite mul_spec.
  change (Prim2SF nan) with S754_nan. now destruct (Prim2SF x).
Qed.

Lemma div_nan_l (y : float) : (nan / y)%float = nan.
Proof. apply Prim2SF_inj. rewrite div_spec. reflexivity. Qed.

Lemma div_nan_r (x : float) : (x / nan)%float = nan.
Proof.
  apply Prim2SF_inj. rewrite div_spec.
  change (Prim2SF nan) with S754_nan. now destruct (Prim2SF x).
Qed.

Lemma fold_add_from_nan (l : list float) : fold_left PrimFloat.add l nan = nan.
Proof.
  induction l as [|x l IH]; cbn [fold_left]; trivial. now rewrite add_nan_l.
Qed.

(** A sum with a NaN term is NaN. *)
Lemma np_sum_nan (l : list float) :
  In nan l -> forall init, fold_left PrimFloat.add l init = nan.
Proof.
  induction l as [|x l IH]; intros Hin init; [destruct Hin|].
  cbn [fold_left]. destruct Hin as [->|Hin].
  - rewrite add_nan_r. apply fold_add_from_nan.
  - now apply IH.
Qed.

Lemma np_mean_nan (l : list float) : In nan l -> np_mean l = nan.
Proof.
  intros Hin. unfold np_mean, np_sum. cbn [f_add f_div f_zero binary64].
  rewrite (np_sum_nan l Hin). apply div_nan_l.
Qed.

(** A window with a NaN entry has all three metrics NaN. *)
Lemma path_metrics_nan (k : float) (w : Z) (path : list float) :
  Exists (fun x => nan64 x = true) (slice_from (- w) path) ->
  path_metrics k w path = {| trend := nan; drag := nan; eff := nan |}.
Proof.
  intros Hex. apply Exists_exists in Hex. destruct Hex as [x [Hin Hx]].
  apply nan64_eq in Hx. subst x.
  unfold path_metrics. set (window := slice_from (- w) path) in *.
  assert (Hs : np_sum window = nan) by (apply np_sum_nan; exact Hin).
  assert (Hv : np_sum (np_square window) = nan).
  { apply np_sum_nan. unfold np_square.
    change nan with (f_sq (A := binary64) nan). now apply in_map. }
  rewrite Hs, Hv. cbn [f_mul f_div f_add f_abs binary64].
  now rewrite mul_nan_r, add_nan_l, div_nan_r.
Qed.

(** One row with all three metrics NaN makes the three averages NaN. *)
Lemma compute_with_nan_row (self : StructuralDecayMonitor float)
    (paths : list (list float)) (p : list float) :
  sim_paths self = Some paths ->
  In p (included_paths (lookback_window (config self)) paths) ->
  path_metrics (leverage_k (config self)) (lookback_window (config self)) p =
    {| trend := nan; drag := nan; eff := nan |} ->
  compute_structural_greeks self =
    inr {| avg_trend := nan; avg_drag := nan; avg_efficiency := nan |}.
Proof.
  intros Hload Hin Hnan. rewrite (compute_loaded self Hload). cbv zeta.
  set (k := leverage_k (config self)) in *.
  set (w := lookback_window (config self)) in *.
  assert (Hp : In {| trend := nan; drag := nan; eff := nan |}
                  (map (path_metrics k w) (included_paths w paths))).
  { rewrite <- Hnan. now apply in_map. }
  do 2 f_equal; apply np_mean_nan.
  - change nan with (trend {| trend := nan; drag := nan; eff := nan |}).
    now apply in_map.
  - change nan with (drag {| trend := nan; drag := nan; eff := nan |}).
    now apply in_map.
  - change nan with (eff {| trend := nan; drag := nan; eff := nan |}).
    now apply in_map.
Qed.



(** ** Variances that are not positive *)

Lemma sqrt_negative (x : float) : (x <? 0)%float = true -> sqrt x = nan.
Proof.
  intros Hx. rewrite ltb_spec in Hx.
  change (Prim2SF 0) with (S754_zero false) in Hx.
  apply Prim2SF_inj. rewrite sqrt_spec. change (Prim2SF nan) with S754_nan.
  destruct (Prim2SF x) as [[]|[]| |[] m e]; try discriminate; reflexivity.
Qed.

Lemma length_slice_from_last {A : Type} (w : Z) (l : list A) :
  0 < w -> w <= len l -> List.length (slice_from (- w) l) = Z.to_nat w.
Proof.
  intros Hpos Hfit. rewrite slice_from_last by assumption.
  apply length_last_entries. unfold len in Hfit. lia.
Qed.

Section NegativeVariance.
Variable Generator : Type.
Variable default_rng : Z -> Generator.
Variable standard_normal : Generator -> float * Generator.
Variable GlobalState : Type.

Lemma draw_row_nan_scale d : forall g,
  fst (draw_row standard_normal 0%float nan d g) = repeat nan d.
Proof.
  induction d as [|d IH]; intros g; cbn [draw_row repeat]; trivial.
  destruct (standard_normal g) as [z g1]. specialize (IH g1).
  destruct (draw_row standard_normal 0%float nan d g1) as [row g2].
  cbn [fst f_add f_mul binary64] in *.
  now rewrite IH, mul_nan_l, add_nan_r.
Qed.

Lemma draw_rows_nan_scale n d : forall g,
  fst (draw_rows standard_normal 0%float nan n d g) = repeat (repeat nan d) n.
Proof.
  induction n as [|n IH]; intros g; cbn [draw_rows repeat]; trivial.
  pose proof (draw_row_nan_scale d g) as Hrow.
  destruct (draw_row standard_normal 0%float nan d g) as [row g1].
  specialize (IH g1).
  destruct (draw_rows standard_normal 0%float nan n d g1) as [rows g2].
  cbn [fst] in *. now rewrite Hrow, IH.
Qed.

End NegativeVariance.


Lemma zero_scale (x : float) :
  (x =? 0)%float = true ->
  exists s, Prim2SF (sqrt x / sqrt (f_of_int 252))%float = S754_zero s.
Proof.
  intros Hx. destruct (@eqb_zero_inv _ Hx) as [s Hs].
  rewrite div_spec, sqrt_spec, Hs.
  assert (H252 : exists m e,
             Prim2SF (sqrt (f_of_int 252)) = S754_finite false m e)
    by (vm_compute; eauto).
  destruct H252 as [m [e ->]]. cbn. eauto.
Qed.

Lemma zero_scale_entry (scale z : float) (s : bool) :
  Prim2SF scale = S754_zero s -> finite64 z = true ->
  (0 + scale * z)%float = 0%float.
Proof.
  unfold finite64. intros Hscale Hz. apply Prim2SF_inj.
  rewrite add_spec, mul_spec, Hscale.
  change (Prim2SF 0) with (S754_zero false).
  destruct (Prim2SF z) as [sz|sz| |sz m e]; try discriminate;
    destruct s, sz; reflexivity.
Qed.

Section ZeroVariance.
Variable Generator : Type.
Variable default_rng : Z -> Generator.
Variable standard_normal : Generator -> float * Generator.
Variable GlobalState : Type.

Lemma draw_row_zero_scale (scale : float) (s : bool) d :
  Prim2SF scale = S754_zero s ->
  forall g,
    Forall (fun z => finite64 z = true) (draws standard_normal d g) ->
    fst (draw_row standard_normal 0%float scale d g) = repeat 0%float d.
Proof.
  intros Hscale. induction d as [|d IH]; intros g Hfin;
    cbn [draw_row draws repeat] in *; trivial.
  destruct (standard_normal g) as [z g1]. specialize (IH g1).
  destruct (draw_row standard_normal 0%float scale d g1) as [row g2].
  inversion Hfin as [|z' zs Hz Hzs]; subst.
  cbn [fst f_add f_mul binary64] in *.
  now rewrite IH, (@zero_scale_entry _ _ _ Hscale Hz).
Qed.

Lemma draw_rows_zero_scale (scale : float) (s : bool) n d :
  Prim2SF scale = S754_zero s ->
  forall g,
    Forall (fun z => finite64 z = true) (draws standard_normal (n * d) g) ->
    fst (draw_rows standard_normal 0%float scale n d g) =
      repeat (repeat 0%float d) n.
Proof.
  intros Hscale. induction n as [|n IH]; intros g Hfin;
    cbn [draw_rows repeat Nat.mul] in *; trivial.
  rewrite draws_app in Hfin. apply Forall_app in Hfin.
  destruct Hfin as [Hrow Hrest].
  pose proof (@draw_row_zero_scale scale s d Hscale g Hrow) as Hzero.
  rewrite draw_row_draws in *. cbn [fst] in Hzero.
  specialize (IH _ Hrest).
  destruct (draw_rows standard_normal 0%float scale n d
              (after_draws standard_normal d g)) as [rows g2].
  cbn [fst] in *. now rewrite Hzero, IH.
Qed.

End ZeroVariance.


(** ** Exact arithmetic: bounds *)

Lemma exact_var_sum_nonneg (l : list Q) : (0 <= np_sum (np_square l))%Q.
Proof.
  unfold np_sum, np_square.
  apply (fold_add_nonneg (A := exact) Qle Qadd_nonneg).
  - apply Forall_map, Forall_forall. intros x _. apply Qsq_nonneg.
  - apply Qle_refl.
Qed.

Lemma exact_half_square_nonneg (k : Q) : (0 <= k * k / 2)%Q.
Proof.
  apply Qle_shift_div_l; [reflexivity|]. rewrite Qmult_0_l. apply Qsq_nonneg.
Qed.


(** ** Exact arithmetic: scaling *)

Lemma slice_from_map {A B : Type} (f : A -> B) (start : Z) (l : list A) :
  slice_from start (map f l) = map f (slice_from start l).
Proof.
  unfold slice_from, len. rewrite length_map. apply skipn_map.
Qed.

(** Sums of two lists related term by term through a factor [c]. *)
Lemma fold_Qplus_scaled (c : Q) (f g : Q -> Q) (l : list Q) :
  (forall x, f x == c * g x)%Q ->
  forall a a', (a' == c * a)%Q ->
    (fold_left Qplus (map f l) a' == c * fold_left Qplus (map g l) a)%Q.
Proof.
  intros Hfg. induction l as [|x l IH]; intros a a' Ha; cbn [map fold_left].
  - exact Ha.
  - apply IH. rewrite Ha, Hfg. ring.
Qed.


(** ** Exact arithmetic: the order of the rows *)

Lemma Permutation_included_paths {A : Type} (w : Z) (l l' : list (list A)) :
  Permutation l l' -> Permutation (included_paths w l) (included_paths w l').
Proof.
  unfold included_paths.
  induction 1 as [|p l l' _ IH|p q l|l1 l2 l3 _ IH1 _ IH2]; cbn [filter].
  - constructor.
  - destruct (included w p); [now constructor|exact IH].
  - destruct (included w p), (included w q);
      try apply Permutation_refl. apply perm_swap.
  - now apply perm_trans with (filter (included w) l2).
Qed.

Lemma fold_Qplus_init (l : list Q) : forall a,
  (fold_left Qplus l a == a + fold_left Qplus l 0)%Q.
Proof.
  induction l as [|x l IH]; intros a; cbn [fold_left]; [ring|].
  rewrite (IH (a + x)%Q), (IH (0 + x)%Q). ring.
Qed.

Lemma Permutation_sum (l l' : list Q) :
  Permutation l l' -> (np_sum (A := exact) l == np_sum (A := exact) l')%Q.
Proof.
  unfold np_sum. cbn [f_add f_zero exact].
  induction 1 as [|x l l' _ IH|x y l|l1 l2 l3 _ IH1 _ IH2]; cbn [fold_left].
  - reflexivity.
  - rewrite (fold_Qplus_init l), (fold_Qplus_init l'), IH. reflexivity.
  - rewrite (fold_Qplus_init l (0 + y + x)), (fold_Qplus_init l (0 + x + y)).
    ring.
  - now rewrite IH1.
Qed.

Lemma Permutation_mean (l l' : list Q) :
  Permutation l l' -> (np_mean (A := exact) l == np_mean (A := exact) l')%Q.
Proof.
  intros Hperm. unfold np_mean, len. cbn [f_div f_of_int exact].
  rewrite (Permutation_length Hperm), (Permutation_sum Hperm). reflexivity.
Qed.


